(** * Unused-secret reporting for a Kubernetes namespace

    A shallow embedding of [src/k8s.py]: the objects the Kubernetes client
    hands back are records holding the attributes the program reads, Python
    [set]s are finite sets with extensional equality, [None] is [option]'s
    [None], and an attribute access on [None] is a raised [AttributeError]. *)

From Stdlib Require Import String.
From stdpp Require Import base option list sets gmap strings.

(** ** Python values and control flow *)

(** The value of an attribute annotated [str] that may hold [None]. *)
Abbreviation PyStr := (option string).

(** A set of secret names as the extractor builds it: the elements are the
    values found in [name] attributes, so [None] can be a member. *)
Abbreviation NameSet := (gset (option string)).

(** Python's truth test, as used by [if x:] and [x and y], on strings, lists
    and values that may be [None]. The client's model objects define neither
    [__bool__] nor [__len__]: such an object is truthy as soon as it is not
    [None], which the functions below write as a [match]. *)
Class Truthy (A : Type) := truthy : A → bool.
Global Hint Mode Truthy ! : typeclass_instances.

Global Instance string_truthy : Truthy string :=
  λ s, match s with EmptyString => false | String _ _ => true end.
Global Instance list_truthy {A} : Truthy (list A) :=
  λ l, match l with [] => false | _ :: _ => true end.
Global Instance option_truthy {A} `{Truthy A} : Truthy (option A) :=
  λ o, match o with None => false | Some a => truthy a end.

(** [s.startswith(p)] *)
Definition startswith (s p : string) : bool := String.prefix p s.

Inductive exn : Type := AttributeError.

Inductive result (A : Type) : Type :=
| Ok (a : A)
| Raise (e : exn).
Global Arguments Ok {A} a.
Global Arguments Raise {A} e.

Global Instance result_ret : MRet result := λ A a, Ok a.
Global Instance result_bind : MBind result := λ A B f r,
  match r with Ok a => f a | Raise e => Raise e end.

(** [o.attr] where [o] may be [None]. *)
Definition getattr {A} (o : option A) : result A :=
  match o with Some a => Ok a | None => Raise AttributeError end.

(** ** The client's model classes, restricted to the attributes read *)

Record V1SecretVolumeSource := { secret_name : PyStr }.
Record V1Volume := { secret : option V1SecretVolumeSource }.

(** [V1SecretKeySelector.name] *)
Record V1SecretKeySelector := { selector_name : PyStr }.
Record V1EnvVarSource := { secret_key_ref : option V1SecretKeySelector }.
Record V1EnvVar := { value_from : option V1EnvVarSource }.

(** [V1SecretEnvSource.name] *)
Record V1SecretEnvSource := { secret_ref_name : PyStr }.
Record V1EnvFromSource := { secret_ref : option V1SecretEnvSource }.

(** [V1VolumeMount.name], looked up as it is among the members of the used
    set. *)
Record V1VolumeMount := { mount_name : PyStr }.

Record V1Container := {
  env : option (list V1EnvVar);
  env_from : option (list V1EnvFromSource);
  volume_mounts : option (list V1VolumeMount)
}.

(** [containers] is the one attribute here that the Kubernetes schema
    requires; it stays an [option] so that a pod spec lacking it can be
    written down and the unguarded read of line 124 followed. *)
Record V1PodSpec := {
  volumes : option (list V1Volume);
  containers : option (list V1Container);
  init_containers : option (list V1Container)
}.

(** [V1PodTemplateSpec.spec] *)
Record V1PodTemplateSpec := { template_spec : option V1PodSpec }.

(** [V1DeploymentSpec], [V1StatefulSetSpec], [V1DaemonSetSpec] and
    [V1ReplicaSetSpec] are read through [template] only, and the four
    controller classes through [spec] only: one record stands for each
    layer. The client leaves [spec] optional, as it does the template under
    it and the template's inner spec. *)
Record V1ControllerSpec := { template : option V1PodTemplateSpec }.
Record V1Controller := { controller_spec : option V1ControllerSpec }.

(** [V1Pod.spec] *)
Record V1Pod := { pod_spec : option V1PodSpec }.

(** [V1Secret.metadata.name], which the client leaves optional. *)
Record V1Secret := { metadata_name : PyStr }.

(** The cluster as seen through [v1] and [apps_v1]: what each listing call
    returns in [.items] for a namespace. *)
Record KubeApi := {
  list_namespaced_secret : string → option (list V1Secret);
  list_namespaced_deployment : string → list V1Controller;
  list_namespaced_stateful_set : string → list V1Controller;
  list_namespaced_daemon_set : string → list V1Controller;
  list_namespaced_replica_set : string → list V1Controller;
  list_namespaced_pod : string → list V1Pod
}.

(** ** [src/k8s.py] *)

(** Lines 132-157. *)
Definition _get_used_secrets_in_container (container : V1Container) : NameSet :=
  let used_secrets : NameSet := ∅ in
  let used_secrets :=
    if truthy (env container) then
      foldl (λ used_secrets env,
               match value_from env with
               | Some vf =>
                   match secret_key_ref vf with
                   | Some ref => {[ selector_name ref ]} ∪ used_secrets
                   | None => used_secrets
                   end
               | None => used_secrets
               end)
            used_secrets (default [] (env container))
    else used_secrets in
  let used_secrets :=
    if truthy (env_from container) then
      foldl (λ used_secrets env_from,
               match secret_ref env_from with
               | Some ref =>
                   if truthy (secret_ref_name ref)
                   then {[ secret_ref_name ref ]} ∪ used_secrets
                   else used_secrets
               | None => used_secrets
               end)
            used_secrets (default [] (env_from container))
    else used_secrets in
  let used_secrets :=
    if truthy (volume_mounts container) then
      foldl (λ used_secrets volume_mount,
               if bool_decide (mount_name volume_mount ∈ used_secrets)
               then {[ mount_name volume_mount ]} ∪ used_secrets
               else used_secrets)
            used_secrets (default [] (volume_mounts container))
    else used_secrets in
  used_secrets.

(** Lines 107-129. [pod_template.containers.copy()] is the one attribute
    access of the function made without a guard. *)
Definition _get_used_secrets_in_pod_spec (pod_template : V1PodSpec) : result NameSet :=
  let used_secrets : NameSet := ∅ in
  let used_secrets :=
    if truthy (volumes pod_template) then
      foldl (λ used_secrets volume,
               match secret volume with
               | Some src =>
                   if truthy (secret_name src)
                   then {[ secret_name src ]} ∪ used_secrets
                   else used_secrets
               | None => used_secrets
               end)
            used_secrets (default [] (volumes pod_template))
    else used_secrets in
  containers ← getattr (containers pod_template);
  let containers :=
    containers ++ (if truthy (init_containers pod_template)
                   then default [] (init_containers pod_template) else []) in
  mret (foldl (λ used_secrets container,
                 used_secrets ∪ _get_used_secrets_in_container container)
              used_secrets containers).

(** Lines 51-67. *)
Definition _list_all_secrets (api : KubeApi) (namespace : string) : NameSet :=
  let secrets_list := list_namespaced_secret api namespace in
  if negb (truthy secrets_list) then ∅
  else list_to_set (metadata_name <$> default [] secrets_list).

(** Lines 98-100: the loop over the controllers, started from the pod specs
    collected so far. [deployment.spec.template] reads [template] off
    whatever [spec] holds, so a controller without [spec] ends the loop with
    an [AttributeError]. *)
Fixpoint append_embedded_pod_specs (pod_specs : list V1PodSpec)
    (controllers : list V1Controller) : result (list V1PodSpec) :=
  match controllers with
  | [] => mret pod_specs
  | deployment :: controllers =>
      spec ← getattr (controller_spec deployment);
      match template spec with
      | Some tpl =>
          match template_spec tpl with
          | Some spec => append_embedded_pod_specs (pod_specs ++ [spec]) controllers
          | None => append_embedded_pod_specs pod_specs controllers
          end
      | None => append_embedded_pod_specs pod_specs controllers
      end
  end.

(** Lines 97-104: the two loops of [_get_all_pod_specs], over the
    concatenated controller listings and over the pod listing. *)
Definition collect_pod_specs (controllers : list V1Controller) (pods : list V1Pod)
    : result (list V1PodSpec) :=
  let pod_specs : list V1PodSpec := [] in
  pod_specs ← append_embedded_pod_specs pod_specs controllers;
  let pod_specs :=
    foldl (λ pod_specs pod,
             match pod_spec pod with
             | Some spec => pod_specs ++ [spec]
             | None => pod_specs
             end)
          pod_specs pods in
  mret pod_specs.

(** Lines 70-104. The second listing, bound to [statefulsets_list], is
    obtained from [list_namespaced_deployment] (line 85). *)
Definition _get_all_pod_specs (api : KubeApi) (namespace : string)
    : result (list V1PodSpec) :=
  let deployments_list := list_namespaced_deployment api namespace in
  let statefulsets_list := list_namespaced_deployment api namespace in
  let daemonsets_list := list_namespaced_daemon_set api namespace in
  let pods_list := list_namespaced_pod api namespace in
  let replicasets_list := list_namespaced_replica_set api namespace in
  collect_pod_specs
    (deployments_list ++ statefulsets_list ++ daemonsets_list ++ replicasets_list)
    pods_list.

(** Lines 24-26: the loop that fills [all_used_secrets], started from the
    set accumulated so far. An exception raised by the extractor leaves the
    loop at once. *)
Fixpoint update_all_used_secrets (all_used_secrets : NameSet)
    (pod_specs : list V1PodSpec) : result NameSet :=
  match pod_specs with
  | [] => mret all_used_secrets
  | pod_spec :: pod_specs =>
      used_secrets ← _get_used_secrets_in_pod_spec pod_spec;
      update_all_used_secrets (all_used_secrets ∪ used_secrets) pod_specs
  end.

(** Lines 21 and 24-26. *)
Definition all_used_secrets (pod_specs : list V1PodSpec) : result NameSet :=
  update_all_used_secrets ∅ pod_specs.

(** The resolver on declared names that are all strings, where line 30
    cannot fail.

    Line 27: [secrets - all_used_secrets], between a set of strings and a
    set whose members are strings or [None]. *)
Definition unused_secrets (secrets : gset string) (all_used_secrets : NameSet) : gset string :=
  filter (λ secret, Some secret ∉ all_used_secrets) secrets.

(** Lines 28-33: the loop over [unused_secrets], in the order in which the
    set enumerates its members. *)
Definition final_unused_secrets (unused_secrets : gset string) : gset string :=
  set_fold (λ secret final_unused_secrets,
              if startswith secret "default-token-"
                 || startswith secret "kubernetes.io/service-account"
                 || startswith secret "sh.helm.release.v1"
              then final_unused_secrets
              else {[ secret ]} ∪ final_unused_secrets)
           (∅ : gset string) unused_secrets.

(** Lines 27-34: from the declared names and the used set to the result. *)
Definition resolve_unused_secrets (secrets : gset string) (all_used_secrets : NameSet)
    : gset string :=
  final_unused_secrets (unused_secrets secrets all_used_secrets).

(** The resolver on the declared names as the listing gives them, strings
    or [None].

    Lines 28-33: the loop over the members of [unused_secrets], started from
    the set built so far. [secret.startswith] on [None] raises
    [AttributeError]. *)
Fixpoint add_final_unused_secrets (final_unused_secrets : gset string)
    (unused_secrets : list PyStr) : result (gset string) :=
  match unused_secrets with
  | [] => mret final_unused_secrets
  | secret :: unused_secrets =>
      secret ← getattr secret;
      if startswith secret "default-token-"
         || startswith secret "kubernetes.io/service-account"
         || startswith secret "sh.helm.release.v1"
      then add_final_unused_secrets final_unused_secrets unused_secrets
      else add_final_unused_secrets ({[ secret ]} ∪ final_unused_secrets) unused_secrets
  end.

(** Lines 27-34, the loop taking the members of the difference in the order
    in which the set enumerates them; any other order ends the same way
    ([resolve_listed_secrets_any_order]). *)
Definition resolve_listed_secrets (secrets all_used_secrets : NameSet)
    : result (gset string) :=
  let unused_secrets := secrets ∖ all_used_secrets in
  add_final_unused_secrets ∅ (elements unused_secrets).

(** Lines 9-34. *)
Definition list_unused_secrets_in_namespace (api : KubeApi) (namespace : string)
    : result (gset string) :=
  let secrets := _list_all_secrets api namespace in
  pod_specs ← _get_all_pod_specs api namespace;
  all_used_secrets ← all_used_secrets pod_specs;
  resolve_listed_secrets secrets all_used_secrets.

(** ** Reference definitions, written from the specification *)

(** The container scan with the volume-mount loop (lines 153-156) removed. *)
Definition _get_used_secrets_in_container_without_mounts (container : V1Container) : NameSet :=
  let used_secrets : NameSet := ∅ in
  let used_secrets :=
    if truthy (env container) then
      foldl (λ used_secrets env,
               match value_from env with
               | Some vf =>
                   match secret_key_ref vf with
                   | Some ref => {[ selector_name ref ]} ∪ used_secrets
                   | None => used_secrets
                   end
               | None => used_secrets
               end)
            used_secrets (default [] (env container))
    else used_secrets in
  let used_secrets :=
    if truthy (env_from container) then
      foldl (λ used_secrets env_from,
               match secret_ref env_from with
               | Some ref =>
                   if truthy (secret_ref_name ref)
                   then {[ secret_ref_name ref ]} ∪ used_secrets
                   else used_secrets
               | None => used_secrets
               end)
            used_secrets (default [] (env_from container))
    else used_secrets in
  used_secrets.

(** The name a volume contributes: that of its secret source, when there is
    one and the name is non-empty. *)
Definition volume_secret (volume : V1Volume) : option PyStr :=
  src ← secret volume;
  if truthy (secret_name src) then Some (secret_name src) else None.

(** The name an environment variable contributes: that of its secret key
    reference, whatever it holds. *)
Definition env_secret (var : V1EnvVar) : option PyStr :=
  vf ← value_from var;
  ref ← secret_key_ref vf;
  Some (selector_name ref).

(** The name an envFrom entry contributes: that of its secret reference,
    when a name is there. *)
Definition env_from_secret (source : V1EnvFromSource) : option PyStr :=
  ref ← secret_ref source;
  if truthy (secret_ref_name ref) then Some (secret_ref_name ref) else None.

Definition container_secrets (container : V1Container) : NameSet :=
  list_to_set (omap env_secret (default [] (env container)))
  ∪ list_to_set (omap env_from_secret (default [] (env_from container))).

(** Union of the volume secrets and of the secrets of every container and
    init-container; an absent sequence counts as empty. *)
Definition referenced_secrets (pod_template : V1PodSpec) : NameSet :=
  list_to_set (omap volume_secret (default [] (volumes pod_template)))
  ∪ ⋃ (container_secrets <$>
         (default [] (containers pod_template)
          ++ default [] (init_containers pod_template))).

(** The pod spec a controller embeds, when both its template and the
    template's inner spec are present. *)
Definition embedded_pod_spec (controller : V1Controller) : option V1PodSpec :=
  spec ← controller_spec controller;
  tpl ← template spec;
  template_spec tpl.

(** The declared names that are strings. *)
Definition string_names (secrets : NameSet) : gset string := set_omap id secrets.

(** A sequence attribute with [None] replaced by the empty list. *)
Definition or_empty {A} (o : option (list A)) : option (list A) :=
  Some (default [] o).

(** The three reserved prefixes. *)
Definition reserved_prefixes : list string :=
  ["default-token-"; "kubernetes.io/service-account"; "sh.helm.release.v1"].

(** A container, and a pod spec, with every absent sequence attribute other
    than [containers] replaced by the empty list. *)
Definition container_or_empty (container : V1Container) : V1Container :=
  {| env := or_empty (env container);
     env_from := or_empty (env_from container);
     volume_mounts := or_empty (volume_mounts container) |}.

Definition pod_spec_or_empty (pod_template : V1PodSpec) : V1PodSpec :=
  {| volumes := or_empty (volumes pod_template);
     containers := containers pod_template;
     init_containers := or_empty (init_containers pod_template) |}.

(** ** Sample objects *)

Definition bare_container : V1Container :=
  {| env := None; env_from := None; volume_mounts := None |}.

Definition secret_volume (name : PyStr) : V1Volume :=
  {| secret := Some {| secret_name := name |} |}.

Definition secret_env_var (name : PyStr) : V1EnvVar :=
  {| value_from := Some {| secret_key_ref := Some {| selector_name := name |} |} |}.

Definition secret_env_from (name : PyStr) : V1EnvFromSource :=
  {| secret_ref := Some {| secret_ref_name := name |} |}.

(** A pod spec with every sequence attribute absent. *)
Definition pod_without_containers : V1PodSpec :=
  {| volumes := None; containers := None; init_containers := None |}.

(** A pod spec that mounts secret [tls-cert] and has no container list. *)
Definition tls_pod_without_containers : V1PodSpec :=
  {| volumes := Some [secret_volume (Some "tls-cert")];
     containers := None;
     init_containers := None |}.

Definition minimal_pod : V1PodSpec :=
  {| volumes := None; containers := Some [bare_container]; init_containers := None |}.

(** Mounts [api-key]; its container imports [cfg-secret] and reads a key of
    [db-pass]; its init-container reads a key of a reference without name. *)
Definition web_pod : V1PodSpec :=
  {| volumes := Some [secret_volume (Some "api-key"); {| secret := None |}];
     containers :=
       Some [ {| env := Some [secret_env_var (Some "db-pass"); {| value_from := None |}];
                 env_from := Some [secret_env_from (Some "cfg-secret")];
                 volume_mounts := Some [ {| mount_name := Some "api-key" |};
                                         {| mount_name := Some "db-pass" |} ] |} ];
     init_containers :=
       Some [ {| env := Some [secret_env_var None];
                 env_from := Some [secret_env_from (Some ""); secret_env_from None];
                 volume_mounts := None |} ] |}.

Definition worker_pod : V1PodSpec :=
  {| volumes := Some [secret_volume (Some "queue-token")];
     containers := Some [bare_container];
     init_containers := None |}.

(** A container whose only variable reads a key of a reference without name. *)
Definition nameless_ref_container : V1Container :=
  {| env := Some [secret_env_var None]; env_from := None; volume_mounts := None |}.

Definition controller_of (spec : V1PodSpec) : V1Controller :=
  {| controller_spec := Some {| template := Some {| template_spec := Some spec |} |} |}.

(** A controller whose template is there and holds no inner spec. *)
Definition controller_without_inner_spec : V1Controller :=
  {| controller_spec := Some {| template := Some {| template_spec := None |} |} |}.

(** A controller as the client builds it when [spec] is left out. *)
Definition controller_without_spec : V1Controller :=
  {| controller_spec := None |}.

(** A namespace holding secret [db-pass] and one StatefulSet whose pods
    mount it, and nothing else. *)
Definition statefulset_cluster : KubeApi :=
  {| list_namespaced_secret := λ _, Some [ {| metadata_name := Some "db-pass" |} ];
     list_namespaced_deployment := λ _, [];
     list_namespaced_stateful_set := λ _,
       [ controller_of {| volumes := Some [secret_volume (Some "db-pass")];
                          containers := Some [bare_container];
                          init_containers := None |} ];
     list_namespaced_daemon_set := λ _, [];
     list_namespaced_replica_set := λ _, [];
     list_namespaced_pod := λ _, [] |}.

(** A namespace with the given secret names and Deployments, and no other
    workload. *)
Definition deployment_cluster (names : list string) (deployments : list V1Controller)
    : KubeApi :=
  {| list_namespaced_secret := λ _,
       Some ((λ n, {| metadata_name := Some n |}) <$> names);
     list_namespaced_deployment := λ _, deployments;
     list_namespaced_stateful_set := λ _, [];
     list_namespaced_daemon_set := λ _, [];
     list_namespaced_replica_set := λ _, [];
     list_namespaced_pod := λ _, [] |}.

(** ** The rest of [src/k8s.py], and [main.py] *)

(** [V1Namespace.metadata.name] *)
Record V1Namespace := { namespace_name : string }.

(** The whole cluster as seen through the two clients: the namespaced
    listing calls, and what [v1.list_namespace] returns in [.items]. *)
Record ClusterApi := {
  namespaced : KubeApi;
  list_namespace : list V1Namespace
}.

(** Lines 37-48 of [src/k8s.py]. *)
Definition list_all_namespaces (cluster : ClusterApi) : list string :=
  let namespaces_list := list_namespace cluster in
  namespace_name <$> namespaces_list.

(** An empty [set] is falsy. *)
Global Instance gset_truthy : Truthy (gset string) :=
  λ X, negb (bool_decide (X = ∅)).

(** [print(a, b)]: the arguments separated by one space, as one line. *)
Definition print2 (a b : string) : string := String.append a (String.append " " b).

(** Lines 10-17 of [main.py]: the loop over the namespaces, threading the
    lines printed so far. [colored] is termcolor's function, taken as it
    comes. [for secret in secrets] visits the members of a [set] in an order
    the interpreter chooses: [iteration] is that choice, for the set of each
    namespace. An exception raised for a namespace leaves the loop with what
    was printed before it. *)
Fixpoint report_namespaces (colored : string → string → string)
    (iteration : string → gset string → list string) (api : KubeApi)
    (namespaces : list string) (stdout : list string) : list string * result unit :=
  match namespaces with
  | [] => (stdout, Ok tt)
  | namespace :: namespaces =>
      match list_unused_secrets_in_namespace api namespace with
      | Raise e => (stdout, Raise e)
      | Ok secrets =>
          let stdout := stdout ++ [print2 "+ Namespace :" (colored namespace "green")] in
          if negb (truthy secrets) then
            let stdout := stdout ++ [colored "  - No unused secrets found" "yellow"] in
            report_namespaces colored iteration api namespaces stdout
          else
            let stdout :=
              foldl (λ stdout secret,
                       stdout ++ [colored (String.append "  - " secret) "red"])
                    stdout (iteration namespace secrets) in
            report_namespaces colored iteration api namespaces stdout
      end
  end.

(** Lines 5-17 of [main.py]: the lines printed, and how the run ends. *)
Definition main (colored : string → string → string)
    (iteration : string → gset string → list string) (cluster : ClusterApi)
    : list string * result unit :=
  let namespaces := list_all_namespaces cluster in
  report_namespaces colored iteration (namespaced cluster) namespaces [].

(** An iteration order visits each member of the set once. *)
Definition visits_each_member (iteration : string → gset string → list string) : Prop :=
  ∀ namespace secrets, iteration namespace secrets ≡ₚ elements secrets.

(** What the report holds for one namespace whose unused secrets are
    [secrets]: after the header, the notice or one line per secret. *)
Definition namespace_header (colored : string → string → string) (namespace : string)
    : string :=
  print2 "+ Namespace :" (colored namespace "green").

Definition namespace_lines (colored : string → string → string) (secrets : gset string)
    : list string :=
  if decide (secrets = ∅)
  then [colored "  - No unused secrets found" "yellow"]
  else (λ secret, colored (String.append "  - " secret) "red") <$> elements secrets.

(** A block of printed lines is the report of a namespace when it starts
    with the header and goes on with the lines, in some order. *)
Definition reports (colored : string → string → string)
    (namespace : string) (secrets : gset string) (block : list string) : Prop :=
  ∃ lines,
    block = namespace_header colored namespace :: lines
    ∧ lines ≡ₚ namespace_lines colored secrets.

(** The lines printed after the header under a given iteration order. *)
Definition printed_lines (colored : string → string → string)
    (iteration : string → gset string → list string)
    (namespace : string) (secrets : gset string) : list string :=
  if decide (secrets = ∅)
  then [colored "  - No unused secrets found" "yellow"]
  else (λ secret, colored (String.append "  - " secret) "red")
       <$> iteration namespace secrets.

(** The controllers the program reads, each listing taken once. *)
Definition scanned_controllers (api : KubeApi) (namespace : string) : list V1Controller :=
  list_namespaced_deployment api namespace
  ++ list_namespaced_daemon_set api namespace
  ++ list_namespaced_replica_set api namespace.

(** The workloads whose pod specs the program reads: what the listings of
    Deployments, DaemonSets, ReplicaSets and Pods have to give. *)
Definition scanned_pod_specs (api : KubeApi) (namespace : string) : list V1PodSpec :=
  omap embedded_pod_spec (scanned_controllers api namespace)
  ++ omap pod_spec (list_namespaced_pod api namespace).

(** A test double for termcolor: the colour as a tag in front of the text. *)
Definition tagged (text colour : string) : string :=
  String.append "[" (String.append colour (String.append "]" text)).

(** Namespaces that differ: [empty] lists no secret at all, [broken] runs a
    Deployment without [spec], and any other namespace holds secrets
    [api-key], [unused-one] and [stale-cert] and a Deployment of [web_pod]. *)
Definition sample_api : KubeApi :=
  {| list_namespaced_secret := λ namespace,
       if String.eqb namespace "empty" then None
       else Some [ {| metadata_name := Some "api-key" |};
                   {| metadata_name := Some "unused-one" |};
                   {| metadata_name := Some "stale-cert" |} ];
     list_namespaced_deployment := λ namespace,
       if String.eqb namespace "broken" then [controller_without_spec]
       else [controller_of web_pod];
     list_namespaced_stateful_set := λ _, [];
     list_namespaced_daemon_set := λ _, [];
     list_namespaced_replica_set := λ _, [];
     list_namespaced_pod := λ _, [] |}.

Definition sample_cluster (namespaces : list string) : ClusterApi :=
  {| namespaced := sample_api;
     list_namespace := (λ n, {| namespace_name := n |}) <$> namespaces |}.

(** A namespace with one StatefulSet of [worker_pod], one Deployment whose
    template holds no inner spec, one Pod of [minimal_pod], and the secret
    [queue-token] that the StatefulSet mounts. *)
Definition mixed_cluster : KubeApi :=
  {| list_namespaced_secret := λ _, Some [ {| metadata_name := Some "queue-token" |} ];
     list_namespaced_deployment := λ _, [controller_without_inner_spec];
     list_namespaced_stateful_set := λ _, [controller_of worker_pod];
     list_namespaced_daemon_set := λ _, [];
     list_namespaced_replica_set := λ _, [];
     list_namespaced_pod := λ _, [ {| pod_spec := Some minimal_pod |} ] |}.

(** A namespace whose only workload is a Deployment without [spec]. *)
Definition spec_less_cluster : KubeApi :=
  {| list_namespaced_secret := λ _, None;
     list_namespaced_deployment := λ _, [controller_without_spec];
     list_namespaced_stateful_set := λ _, [];
     list_namespaced_daemon_set := λ _, [];
     list_namespaced_replica_set := λ _, [];
     list_namespaced_pod := λ _, [] |}.

(** A namespace without workload whose one secret has no name. *)
Definition nameless_secret_cluster : KubeApi :=
  {| list_namespaced_secret := λ _, Some [ {| metadata_name := None |} ];
     list_namespaced_deployment := λ _, [];
     list_namespaced_stateful_set := λ _, [];
     list_namespaced_daemon_set := λ _, [];
     list_namespaced_replica_set := λ _, [];
     list_namespaced_pod := λ _, [] |}.

(** ** Loops as set expressions *)

Section loops.
Context {A : Type}.

(** [if xs: for x in xs: ...] runs the loop over [xs or []]. *)
Lemma guarded_loop {S} (step : S → A → S) (acc : S) (xs : option (list A)) :
  (if truthy xs then foldl step acc (default [] xs) else acc)
  = foldl step acc (default [] xs).
Proof. by destruct xs as [[|x xs]|]. Qed.

(** A loop whose body adds at most one name per element. *)
Lemma foldl_collect (step : NameSet → A → NameSet) (f : A → option PyStr) :
  (∀ acc x, step acc x = from_option (λ n, {[ n ]} ∪ acc) acc (f x)) →
  ∀ xs acc, foldl step acc xs = acc ∪ list_to_set (omap f xs).
Proof.
  intros Hstep xs. induction xs as [|x xs IH]; intros acc; simpl.
  - set_solver.
  - rewrite IH, Hstep. destruct (f x) as [n|]; simpl; set_solver.
Qed.

(** A loop whose body unions one set per element. *)
Lemma foldl_union (f : A → NameSet) (xs : list A) (acc : NameSet) :
  foldl (λ acc x, acc ∪ f x) acc xs = acc ∪ ⋃ (f <$> xs).
Proof.
  revert acc. induction xs as [|x xs IH]; intros acc; simpl.
  - set_solver.
  - rewrite IH. set_solver.
Qed.

(** A loop whose body re-adds members only leaves the set as it is. *)
Lemma foldl_readd (f : A → PyStr) (xs : list A) (acc : NameSet) :
  foldl (λ acc x, if bool_decide (f x ∈ acc) then {[ f x ]} ∪ acc else acc) acc xs
  = acc.
Proof.
  induction xs as [|x xs IH]; simpl; [done|].
  case_bool_decide as Hin; [|done].
  replace ({[ f x ]} ∪ acc) with acc by set_solver. done.
Qed.
End loops.

(** ** The extractor as a set expression *)

Lemma container_scan_without_mounts (container : V1Container) :
  _get_used_secrets_in_container_without_mounts container = container_secrets container.
Proof.
  unfold _get_used_secrets_in_container_without_mounts, container_secrets.
  rewrite !guarded_loop.
  rewrite (foldl_collect _ env_from_secret), (foldl_collect _ env_secret).
  - set_solver.
  - intros acc [[[[[n]|]]|]]; reflexivity.
  - intros acc [[[n]|]]; simpl; [|reflexivity].
    unfold env_from_secret; simpl. by destruct (truthy n).
Qed.

Lemma container_scan (container : V1Container) :
  _get_used_secrets_in_container container = container_secrets container.
Proof.
  rewrite <- container_scan_without_mounts.
  unfold _get_used_secrets_in_container, _get_used_secrets_in_container_without_mounts.
  rewrite !guarded_loop. apply (foldl_readd mount_name).
Qed.

Lemma pod_scan (pod_template : V1PodSpec) :
  _get_used_secrets_in_pod_spec pod_template
  = match containers pod_template with
    | Some _ => Ok (referenced_secrets pod_template)
    | None => Raise AttributeError
    end.
Proof.
  unfold _get_used_secrets_in_pod_spec, referenced_secrets.
  destruct pod_template as [vols [cs|] inits]; simpl; [|reflexivity].
  unfold mret, result_ret. f_equal.
  rewrite guarded_loop, foldl_union, (foldl_collect _ volume_secret).
  - replace (if truthy inits then default [] inits else []) with (default [] inits)
      by (by destruct inits as [[|? ?]|]).
    rewrite (list_fmap_ext _ container_secrets) by (intros; apply container_scan).
    set_solver.
  - intros acc [[[n]|]]; simpl; [|reflexivity].
    unfold volume_secret; simpl. by destruct (truthy n).
Qed.

Lemma pod_scan_ok (pod_template : V1PodSpec) (used : NameSet) :
  _get_used_secrets_in_pod_spec pod_template = Ok used →
  used = referenced_secrets pod_template.
Proof. rewrite pod_scan. destruct (containers pod_template); congruence. Qed.

(** ** The aggregation loop *)

Lemma update_all_used_secrets_app (acc : NameSet) (xs ys : list V1PodSpec) :
  update_all_used_secrets acc (xs ++ ys)
  = update_all_used_secrets acc xs ≫= λ acc', update_all_used_secrets acc' ys.
Proof.
  revert acc. induction xs as [|x xs IH]; intros acc; simpl; [done|].
  destruct (_get_used_secrets_in_pod_spec x); simpl; [apply IH | done].
Qed.

(** Starting the loop from [acc] adds [acc] to what it yields from [∅]. *)
Lemma update_all_used_secrets_acc (acc : NameSet) (xs : list V1PodSpec) :
  update_all_used_secrets acc xs
  = all_used_secrets xs ≫= λ used, Ok (acc ∪ used).
Proof.
  unfold all_used_secrets. revert acc.
  induction xs as [|x xs IH]; intros acc; simpl.
  - unfold mret, result_ret. f_equal. set_solver.
  - destruct (_get_used_secrets_in_pod_spec x) as [u|e]; simpl; [|done].
    rewrite (IH (acc ∪ u)), (IH (∅ ∪ u)).
    destruct (update_all_used_secrets ∅ xs); simpl; [|done].
    f_equal. set_solver.
Qed.

Lemma update_all_used_secrets_perm (xs ys : list V1PodSpec) :
  xs ≡ₚ ys → ∀ acc, update_all_used_secrets acc xs = update_all_used_secrets acc ys.
Proof.
  induction 1 as [|x xs ys _ IH|x y xs|xs ys zs _ IH1 _ IH2]; intros acc; simpl.
  - reflexivity.
  - destruct (_get_used_secrets_in_pod_spec x); simpl; [apply IH | reflexivity].
  - destruct (_get_used_secrets_in_pod_spec x) as [ux|[]],
             (_get_used_secrets_in_pod_spec y) as [uy|[]]; simpl; try reflexivity.
    f_equal. set_solver.
  - by rewrite IH1.
Qed.

(** ** The resolver as a set expression *)

Lemma elem_of_final_unused_secrets (unused : gset string) (secret : string) :
  secret ∈ final_unused_secrets unused
  ↔ secret ∈ unused ∧ Forall (λ p, startswith secret p = false) reserved_prefixes.
Proof.
  unfold final_unused_secrets.
  apply (set_fold_ind_L (λ r X, secret ∈ r ↔
    secret ∈ X ∧ Forall (λ p, startswith secret p = false) reserved_prefixes)).
  - set_solver.
  - intros x X r Hx IH.
    assert (Forall (λ p, startswith x p = false) reserved_prefixes
            ↔ (startswith x "default-token-"
               || startswith x "kubernetes.io/service-account"
               || startswith x "sh.helm.release.v1") = false) as Hres.
    { unfold reserved_prefixes. rewrite !Forall_cons, Forall_nil, !orb_false_iff.
      tauto. }
    destruct (startswith x "default-token-"
              || startswith x "kubernetes.io/service-account"
              || startswith x "sh.helm.release.v1") eqn:Hx'.
    + rewrite IH, elem_of_union, elem_of_singleton. split; [tauto|].
      intros [[->|?] Hp]; [|tauto]. apply Hres in Hp. discriminate.
    + rewrite !elem_of_union, !elem_of_singleton, IH. split.
      * intros [->|[? ?]]; [|tauto]. split; [tauto|]. by apply Hres.
      * intros [[->|?] ?]; tauto.
Qed.

Lemma elem_of_resolve_unused_secrets (secrets : gset string) (used : NameSet)
    (secret : string) :
  secret ∈ resolve_unused_secrets secrets used
  ↔ secret ∈ secrets ∧ (Some secret ∉ used)
    ∧ Forall (λ p, startswith secret p = false) reserved_prefixes.
Proof.
  unfold resolve_unused_secrets, unused_secrets.
  rewrite elem_of_final_unused_secrets, elem_of_filter. tauto.
Qed.

(** ** The collection loops *)

Lemma foldl_append {A B} (step : list B → A → list B) (f : A → option B) :
  (∀ acc x, step acc x = from_option (λ b, acc ++ [b]) acc (f x)) →
  ∀ xs acc, foldl step acc xs = acc ++ omap f xs.
Proof.
  intros Hstep xs. induction xs as [|x xs IH]; intros acc; simpl.
  - by rewrite app_nil_r.
  - rewrite IH, Hstep. destruct (f x); simpl; [by rewrite <- app_assoc | done].
Qed.

(** The controller loop appends what each controller has to give, unless
    one of them has no [spec]. *)
Lemma append_embedded_pod_specs_spec (pod_specs : list V1PodSpec)
    (controllers : list V1Controller) :
  append_embedded_pod_specs pod_specs controllers
  = if decide (Forall (λ c, is_Some (controller_spec c)) controllers)
    then Ok (pod_specs ++ omap embedded_pod_spec controllers)
    else Raise AttributeError.
Proof.
  revert pod_specs. induction controllers as [|c cs IH]; intros pod_specs.
  - destruct (decide (Forall _ [])) as [_|Hno]; [|by destruct Hno].
    simpl. by rewrite app_nil_r.
  - destruct c as [[[[[[inner|]]|]]|]];
      cbn [append_embedded_pod_specs getattr mbind result_bind
           controller_spec template template_spec].
    1-3: rewrite IH; destruct (decide (Forall _ cs)) as [Hcs|Hcs];
      [ rewrite decide_True by (constructor; [by eexists|done])
      | rewrite decide_False by (by intros [_ ?]%Forall_cons); done ].
    + f_equal. by rewrite <- app_assoc.
    + reflexivity.
    + reflexivity.
    + rewrite decide_False; [done|].
      intros [[spec Hspec] _]%Forall_cons. discriminate.
Qed.

Lemma pod_specs_collected (controllers : list V1Controller) (pods : list V1Pod) :
  collect_pod_specs controllers pods
  = if decide (Forall (λ c, is_Some (controller_spec c)) controllers)
    then Ok (omap embedded_pod_spec controllers ++ omap pod_spec pods)
    else Raise AttributeError.
Proof.
  unfold collect_pod_specs. rewrite append_embedded_pod_specs_spec.
  destruct (decide (Forall _ controllers)); [|done].
  cbn [mbind result_bind app]. unfold mret, result_ret. f_equal.
  apply (foldl_append _ pod_spec). intros acc [[spec|]]; reflexivity.
Qed.

(** ** Unused-secret resolver *)



(** The prefix test is case-sensitive: a capitalised look-alike is reported. *)
Example capitalised_prefix_reported :
  "Default-token-abc123" ∈ resolve_unused_secrets {[ "Default-token-abc123" ]} ∅.
Proof.
  apply elem_of_resolve_unused_secrets. split; [set_solver|]. split; [set_solver|].
  repeat constructor.
Qed.


(** ** Pod-template collector *)

(** The StatefulSet listing of the cluster has no influence on what is
    collected. *)
Lemma stateful_sets_not_consulted (api : KubeApi) (namespace : string)
    (stateful_sets : string → list V1Controller) :
  _get_all_pod_specs
    {| list_namespaced_secret := list_namespaced_secret api;
       list_namespaced_deployment := list_namespaced_deployment api;
       list_namespaced_stateful_set := stateful_sets;
       list_namespaced_daemon_set := list_namespaced_daemon_set api;
       list_namespaced_replica_set := list_namespaced_replica_set api;
       list_namespaced_pod := list_namespaced_pod api |} namespace
  = _get_all_pod_specs api namespace.
Proof. reflexivity. Qed.

(** C3. In a namespace whose only workload is a StatefulSet that mounts
    secret [db-pass], no pod template is collected, and [db-pass] is
    reported as unused. *)
Theorem stateful_set_template_not_collected :
  embedded_pod_spec <$> list_namespaced_stateful_set statefulset_cluster "prod"
  = [Some {| volumes := Some [secret_volume (Some "db-pass")];
             containers := Some [bare_container];
             init_containers := None |}]
  ∧ _get_all_pod_specs statefulset_cluster "prod" = Ok []
  ∧ list_unused_secrets_in_namespace statefulset_cluster "prod" = Ok {[ "db-pass" ]}.
Proof.
  split; [reflexivity|]. split; [reflexivity|]. vm_compute. reflexivity.
Qed.

(** C6. In a namespace with a StatefulSet whose template and inner spec are
    both present, a Deployment whose template holds no inner spec and a Pod
    that has a spec, the collector skips the Deployment without failing and
    appends the Pod's spec, and does not append the StatefulSet's; so the
    secret the StatefulSet mounts is reported as unused. In a namespace with
    a Deployment that has no [spec], the collector fails. *)
Theorem stateful_set_skipped_like_absent_template :
  embedded_pod_spec <$> list_namespaced_stateful_set mixed_cluster "prod"
  = [Some worker_pod]
  ∧ embedded_pod_spec <$> list_namespaced_deployment mixed_cluster "prod" = [None]
  ∧ _get_all_pod_specs mixed_cluster "prod" = Ok [minimal_pod]
  ∧ list_unused_secrets_in_namespace mixed_cluster "prod" = Ok {[ "queue-token" ]}
  ∧ _get_all_pod_specs spec_less_cluster "prod" = Raise AttributeError.
Proof.
  split; [reflexivity|]. split; [reflexivity|]. split; [reflexivity|].
  split; [vm_compute; reflexivity | reflexivity].
Qed.

(** ** Reference extractor *)

(** C4, as stated, fails: a pod spec whose [containers] attribute is absent
    makes the extractor raise. *)
Lemma extractor_raises_without_containers :
  _get_used_secrets_in_pod_spec pod_without_containers = Raise AttributeError.
Proof. reflexivity. Qed.

(** C4, amended. On every pod spec whose [containers] attribute is present
    the extractor returns a set; absent [volumes], [init_containers], [env],
    [env_from] and [volume_mounts] count as empty sequences. *)
Theorem extractor_total_with_containers
    (pod_template : V1PodSpec) (cs : list V1Container) :
  containers pod_template = Some cs →
  (∃ used, _get_used_secrets_in_pod_spec pod_template = Ok used)
  ∧ _get_used_secrets_in_pod_spec pod_template
    = _get_used_secrets_in_pod_spec (pod_spec_or_empty pod_template)
  ∧ ∀ container,
      _get_used_secrets_in_container container
      = _get_used_secrets_in_container (container_or_empty container).
Proof.
  intros Hcs. split; [|split].
  - exists (referenced_secrets pod_template). by rewrite pod_scan, Hcs.
  - rewrite !pod_scan. simpl. by rewrite Hcs.
  - intros container. by rewrite !container_scan.
Qed.

Lemma extractor_total_with_containers_witness :
  containers minimal_pod = Some [bare_container]
  ∧ ∃ used, _get_used_secrets_in_pod_spec minimal_pod = Ok used.
Proof.
  split; [reflexivity|].
  apply (extractor_total_with_containers minimal_pod [bare_container]).
  reflexivity.
Defined.

(** C5, as stated, fails: without a [containers] attribute nothing is
    returned, not even the secrets of the volumes. *)
Lemma extractor_misses_union_without_containers :
  _get_used_secrets_in_pod_spec tls_pod_without_containers
  ≠ Ok (referenced_secrets tls_pod_without_containers).
Proof. discriminate. Qed.

(** C5, amended. On every pod spec whose [containers] attribute is present,
    the extractor returns exactly the union of the non-empty secret names of
    the volumes and, over containers and init-containers, of the names of
    the variables' secret key references and of the named envFrom secret
    references. *)
Theorem extractor_returns_referenced_secrets
    (pod_template : V1PodSpec) (cs : list V1Container) :
  containers pod_template = Some cs →
  _get_used_secrets_in_pod_spec pod_template = Ok (referenced_secrets pod_template).
Proof. intros Hcs. by rewrite pod_scan, Hcs. Qed.

Lemma extractor_returns_referenced_secrets_witness :
  _get_used_secrets_in_pod_spec web_pod
  = Ok {[ Some "api-key"; Some "db-pass"; Some "cfg-secret"; None ]}.
Proof.
  rewrite (extractor_returns_referenced_secrets web_pod _ eq_refl).
  vm_compute. reflexivity.
Defined.

(** C8. Removing the volume-mount loop from the container scan does not
    change what it returns. *)
Theorem volume_mount_loop_is_noop (container : V1Container) :
  _get_used_secrets_in_container container
  = _get_used_secrets_in_container_without_mounts container.
Proof.
  unfold _get_used_secrets_in_container, _get_used_secrets_in_container_without_mounts.
  rewrite !guarded_loop. apply (foldl_readd mount_name).
Qed.

(** C10. The name of a variable's secret key reference enters the used set
    of its container as it is, be it [None] or the empty string; a name
    that is [None] or empty is in the used set of a container only through
    such a variable, and is never in the used set of a pod spec through a
    volume. *)
Theorem env_reference_added_unchecked (container : V1Container) :
  (∀ vars var vf ref,
     env container = Some vars → var ∈ vars →
     value_from var = Some vf → secret_key_ref vf = Some ref →
     selector_name ref ∈ _get_used_secrets_in_container container)
  ∧ (∀ name,
       name ∈ _get_used_secrets_in_container container → truthy name = false →
       ∃ var, var ∈ default [] (env container) ∧ env_secret var = Some name)
  ∧ (∀ pod_template used name,
       _get_used_secrets_in_pod_spec pod_template = Ok used →
       name ∈ used → truthy name = false →
       ∃ c, c ∈ default [] (containers pod_template)
                ++ default [] (init_containers pod_template)
            ∧ name ∈ _get_used_secrets_in_container c).
Proof.
  split; [|split].
  - intros vars var vf ref Hvars Hvar Hvf Href.
    rewrite container_scan. unfold container_secrets.
    apply elem_of_union_l, elem_of_list_to_set, list_elem_of_omap.
    exists var. rewrite Hvars. split; [done|].
    unfold env_secret. by rewrite Hvf; simpl; rewrite Href.
  - intros name. rewrite container_scan. unfold container_secrets.
    rewrite elem_of_union, !elem_of_list_to_set, !list_elem_of_omap.
    intros [Hvar|(source & _ & Hsource)] Hfalsy; [done|].
    unfold env_from_secret in Hsource.
    destruct (secret_ref source) as [ref|]; simpl in Hsource; [|done].
    destruct (truthy (secret_ref_name ref)) eqn:Ht; [|done].
    congruence.
  - intros pod_template used name ->%pod_scan_ok. unfold referenced_secrets.
    rewrite elem_of_union, elem_of_list_to_set, list_elem_of_omap, elem_of_union_list.
    intros [(volume & _ & Hvolume)|(X & HX & Hname)] Hfalsy.
    + unfold volume_secret in Hvolume.
      destruct (secret volume) as [src|]; simpl in Hvolume; [|done].
      destruct (truthy (secret_name src)) eqn:Ht; [|done].
      congruence.
    + apply list_elem_of_fmap in HX as (c & -> & Hc).
      exists c. by rewrite container_scan.
Qed.

Lemma env_reference_added_unchecked_witness :
  None ∈ _get_used_secrets_in_container nameless_ref_container.
Proof.
  apply (proj1 (env_reference_added_unchecked nameless_ref_container)
           [secret_env_var None] (secret_env_var None)
           {| secret_key_ref := Some {| selector_name := None |} |}
           {| selector_name := None |});
    [reflexivity | apply list_elem_of_here | reflexivity | reflexivity].
Defined.

(** The envFrom path and the volume path drop a reference whose name is
    [None] or empty. *)
Example nameless_env_from_and_volume_dropped :
  _get_used_secrets_in_container
    {| env := None;
       env_from := Some [secret_env_from None; secret_env_from (Some "")];
       volume_mounts := None |} = ∅
  ∧ _get_used_secrets_in_pod_spec
      {| volumes := Some [secret_volume None; secret_volume (Some "")];
         containers := Some [];
         init_containers := None |} = Ok ∅.
Proof. split; vm_compute; reflexivity. Qed.

(** ** Usage aggregator *)

(** C7. The aggregated result, set or exception, is the same for a sequence
    of pod specs and for any permutation of it, and for a sequence and the
    sequence repeated twice. *)
Theorem aggregation_ignores_order_and_duplication :
  (∀ ts ts' : list V1PodSpec, ts ≡ₚ ts' → all_used_secrets ts = all_used_secrets ts')
  ∧ (∀ ts : list V1PodSpec, all_used_secrets (ts ++ ts) = all_used_secrets ts).
Proof.
  split.
  - intros ts ts' Hperm. by apply update_all_used_secrets_perm.
  - intros ts. unfold all_used_secrets at 1.
    rewrite update_all_used_secrets_app. fold (all_used_secrets ts).
    destruct (all_used_secrets ts) as [used|e] eqn:Hts; simpl; [|done].
    rewrite update_all_used_secrets_acc, Hts. simpl. f_equal. set_solver.
Qed.

Lemma aggregation_ignores_order_and_duplication_witness :
  [web_pod; worker_pod] ≡ₚ [worker_pod; web_pod]
  ∧ all_used_secrets [web_pod; worker_pod] = all_used_secrets [worker_pod; web_pod].
Proof.
  split; [apply perm_swap|].
  apply (proj1 aggregation_ignores_order_and_duplication), perm_swap.
Defined.



(** ** The scenarios of the specification, run through the whole program *)

Example scenario_default_token_excluded :
  list_unused_secrets_in_namespace
    (deployment_cluster ["db-pass"; "default-token-abc123"] []) "prod"
  = Ok {[ "db-pass" ]}.
Proof. vm_compute. reflexivity. Qed.

Example scenario_volume_secret_used :
  list_unused_secrets_in_namespace
    (deployment_cluster ["api-key"; "unused-one"]
       [controller_of {| volumes := Some [secret_volume (Some "api-key")];
                         containers := Some [bare_container];
                         init_containers := None |}]) "prod"
  = Ok {[ "unused-one" ]}.
Proof. vm_compute. reflexivity. Qed.

Example scenario_env_from_secret_used :
  list_unused_secrets_in_namespace
    (deployment_cluster ["cfg-secret"]
       [controller_of
          {| volumes := None;
             containers :=
               Some [ {| env := None;
                         env_from := Some [secret_env_from (Some "cfg-secret")];
                         volume_mounts := None |} ];
             init_containers := None |}]) "prod"
  = Ok ∅.
Proof. vm_compute. reflexivity. Qed.

Example scenario_inner_spec_absent :
  list_unused_secrets_in_namespace
    (deployment_cluster ["api-key"]
       [controller_without_inner_spec])
    "prod"
  = Ok {[ "api-key" ]}.
Proof. vm_compute. reflexivity. Qed.

Example scenario_empty_namespace :
  list_unused_secrets_in_namespace (deployment_cluster [] []) "prod" = Ok ∅.
Proof. vm_compute. reflexivity. Qed.

(** ** The whole scan of a namespace *)

(** The aggregation loop ends with the union of what the pod specs
    reference, unless one of them has no container list. *)
Lemma update_all_used_secrets_spec (acc : NameSet) (pod_specs : list V1PodSpec) :
  update_all_used_secrets acc pod_specs
  = if decide (Forall (λ p, is_Some (containers p)) pod_specs)
    then Ok (acc ∪ ⋃ (referenced_secrets <$> pod_specs))
    else Raise AttributeError.
Proof.
  revert acc. induction pod_specs as [|p ps IH]; intros acc.
  - destruct (decide (Forall _ [])) as [_|Hno]; [|by destruct Hno].
    simpl. unfold mret, result_ret. f_equal. set_solver.
  - cbn [update_all_used_secrets]. rewrite pod_scan.
    destruct (decide (Forall _ (p :: ps))) as [[[cs Hcs] Hps]%Forall_cons|Hno].
    + rewrite Hcs. cbn [mbind result_bind]. rewrite IH, decide_True by done.
      f_equal. rewrite fmap_cons, union_list_cons. set_solver.
    + destruct (containers p) as [cs|] eqn:Hcs; [|done].
      cbn [mbind result_bind]. rewrite IH, decide_False; [done|].
      intros Hps. apply Hno. constructor; [by rewrite Hcs|done].
Qed.

(** Only the set of pod specs scanned matters to the aggregation. *)
Lemma all_used_secrets_ext (ps qs : list V1PodSpec) :
  (∀ p, p ∈ ps ↔ p ∈ qs) → all_used_secrets ps = all_used_secrets qs.
Proof.
  intros Hpq. unfold all_used_secrets. rewrite !update_all_used_secrets_spec.
  assert (Forall (λ p, is_Some (containers p)) ps
          ↔ Forall (λ p, is_Some (containers p)) qs) as Hall.
  { rewrite !Forall_forall. naive_solver. }
  destruct (decide (Forall _ ps)), (decide (Forall _ qs)); try tauto.
  f_equal. apply set_eq. intros n.
  rewrite !elem_of_union, !elem_of_union_list.
  setoid_rewrite list_elem_of_fmap. naive_solver.
Qed.

Lemma get_all_pod_specs_spec (api : KubeApi) (namespace : string) :
  _get_all_pod_specs api namespace
  = if decide (Forall (λ c, is_Some (controller_spec c)) (scanned_controllers api namespace))
    then Ok (omap embedded_pod_spec (list_namespaced_deployment api namespace)
             ++ scanned_pod_specs api namespace)
    else Raise AttributeError.
Proof.
  unfold _get_all_pod_specs, scanned_pod_specs, scanned_controllers.
  rewrite pod_specs_collected.
  assert (Forall (λ c, is_Some (controller_spec c))
            (list_namespaced_deployment api namespace
             ++ list_namespaced_deployment api namespace
             ++ list_namespaced_daemon_set api namespace
             ++ list_namespaced_replica_set api namespace)
          ↔ Forall (λ c, is_Some (controller_spec c))
              (list_namespaced_deployment api namespace
               ++ list_namespaced_daemon_set api namespace
               ++ list_namespaced_replica_set api namespace)) as Hall.
  { rewrite !Forall_app. tauto. }
  destruct (decide (Forall _ (_ ++ _ ++ _ ++ _))), (decide (Forall _ (_ ++ _ ++ _)));
    try tauto.
  f_equal. by rewrite !omap_app, <- !app_assoc.
Qed.

Lemma elem_of_list_all_secrets (api : KubeApi) (namespace : string) (name : PyStr) :
  name ∈ _list_all_secrets api namespace
  ↔ ∃ item, item ∈ default [] (list_namespaced_secret api namespace)
            ∧ metadata_name item = name.
Proof.
  unfold _list_all_secrets.
  destruct (list_namespaced_secret api namespace) as [[|item items]|]; simpl.
  - rewrite elem_of_empty. split; [done|]. by intros (? & ?%elem_of_nil & _).
  - rewrite elem_of_union, elem_of_singleton, elem_of_list_to_set, list_elem_of_fmap.
    setoid_rewrite elem_of_cons. naive_solver.
  - rewrite elem_of_empty. split; [done|]. by intros (? & ?%elem_of_nil & _).
Qed.

(** The last loop fails on a [None] member, wherever it stands, and
    otherwise keeps the strings that start with no reserved prefix. *)
Lemma add_final_unused_secrets_raise (final : gset string) (unused : list PyStr) :
  None ∈ unused → add_final_unused_secrets final unused = Raise AttributeError.
Proof.
  revert final. induction unused as [|[s|] unused IH]; intros final Hin.
  - by apply elem_of_nil in Hin.
  - apply elem_of_cons in Hin as [?|Hin]; [done|].
    cbn [add_final_unused_secrets getattr mbind result_bind].
    destruct (_ || _); by apply IH.
  - reflexivity.
Qed.

Lemma add_final_unused_secrets_ok (final : gset string) (unused : list PyStr) :
  None ∉ unused →
  ∃ out,
    add_final_unused_secrets final unused = Ok out
    ∧ ∀ s, s ∈ out
           ↔ s ∈ final
             ∨ (Some s ∈ unused
                ∧ Forall (λ p, startswith s p = false) reserved_prefixes).
Proof.
  revert final. induction unused as [|[s|] unused IH]; intros final Hnone.
  - exists final. split; [done|]. intros s. rewrite elem_of_nil. tauto.
  - cbn [add_final_unused_secrets getattr mbind result_bind].
    assert (None ∉ unused) as Hnone' by (intros ?; apply Hnone; by right).
    assert (Forall (λ p, startswith s p = false) reserved_prefixes
            ↔ (startswith s "default-token-"
               || startswith s "kubernetes.io/service-account"
               || startswith s "sh.helm.release.v1") = false) as Hres.
    { unfold reserved_prefixes. rewrite !Forall_cons, Forall_nil, !orb_false_iff.
      tauto. }
    destruct (_ || _) eqn:Hs.
    + destruct (IH final Hnone') as (out & -> & Hout). exists out. split; [done|].
      intros s'. rewrite Hout, elem_of_cons. split; [tauto|].
      intros [?|[[[= ->]|?] Hp]]; [tauto| |tauto]. apply Hres in Hp. discriminate.
    + destruct (IH ({[ s ]} ∪ final) Hnone') as (out & -> & Hout). exists out.
      split; [done|]. intros s'.
      rewrite Hout, elem_of_union, elem_of_singleton, elem_of_cons. split.
      * intros [[->|?]|[? ?]]; [|tauto|tauto]. right. split; [by left|by apply Hres].
      * intros [?|[[[= ->]|?] ?]]; tauto.
  - destruct Hnone. by left.
Qed.

(** On the strings among the declared names the resolver of the listing is
    the resolver of the names, and it fails exactly when [None] is declared
    and not used. *)
Lemma resolve_listed_secrets_spec (secrets used : NameSet) :
  resolve_listed_secrets secrets used
  = if decide (None ∈ secrets ∖ used)
    then Raise AttributeError
    else Ok (resolve_unused_secrets (string_names secrets) used).
Proof.
  unfold resolve_listed_secrets.
  destruct (decide (None ∈ secrets ∖ used)) as [Hin|Hnot].
  - apply add_final_unused_secrets_raise. by apply elem_of_elements.
  - destruct (add_final_unused_secrets_ok ∅ (elements (secrets ∖ used)))
      as (out & -> & Hout); [by rewrite elem_of_elements|].
    f_equal. apply set_eq. intros s.
    rewrite Hout, elem_of_resolve_unused_secrets, elem_of_elements,
      elem_of_difference. unfold string_names. rewrite elem_of_set_omap.
    split.
    + intros [?|[[? ?] ?]]; [set_solver|]. split; [by exists (Some s)|done].
    + intros [(x & Hx & [= ->]) [? ?]]. tauto.
Qed.

(** The order in which the last loop takes the members does not matter. *)
Lemma resolve_listed_secrets_any_order (secrets used : NameSet) (unused : list PyStr) :
  unused ≡ₚ elements (secrets ∖ used) →
  add_final_unused_secrets ∅ unused = resolve_listed_secrets secrets used.
Proof.
  intros Hperm. unfold resolve_listed_secrets.
  destruct (decide (None ∈ unused)) as [Hin|Hnot].
  - rewrite !add_final_unused_secrets_raise; [done| by rewrite <- Hperm|done].
  - destruct (add_final_unused_secrets_ok ∅ unused Hnot) as (out & -> & Hout).
    destruct (add_final_unused_secrets_ok ∅ (elements (secrets ∖ used)))
      as (out' & -> & Hout'); [by rewrite <- Hperm|].
    f_equal. apply set_eq. intros s. rewrite Hout, Hout'.
    by setoid_rewrite Hperm.
Qed.

(** A secret without name makes the scan fail at line 30, unless a pod spec
    holds a secret key reference without name, which takes [None] out of the
    unused names. *)
Example nameless_secret_raises :
  list_unused_secrets_in_namespace nameless_secret_cluster "prod" = Raise AttributeError
  ∧ list_unused_secrets_in_namespace
      {| list_namespaced_secret := list_namespaced_secret nameless_secret_cluster;
         list_namespaced_deployment := λ _, [];
         list_namespaced_stateful_set := λ _, [];
         list_namespaced_daemon_set := λ _, [];
         list_namespaced_replica_set := λ _, [];
         list_namespaced_pod := λ _,
           [ {| pod_spec := Some {| volumes := None;
                                    containers := Some [nameless_ref_container];
                                    init_containers := None |} |} ] |} "prod"
    = Ok ∅.
Proof. split; vm_compute; reflexivity. Qed.

(** The whole scan, stage by stage. *)
Lemma scan_spec (api : KubeApi) (namespace : string) :
  list_unused_secrets_in_namespace api namespace
  = if decide (Forall (λ c, is_Some (controller_spec c)) (scanned_controllers api namespace))
    then if decide (Forall (λ p, is_Some (containers p)) (scanned_pod_specs api namespace))
         then resolve_listed_secrets (_list_all_secrets api namespace)
                (⋃ (referenced_secrets <$> scanned_pod_specs api namespace))
         else Raise AttributeError
    else Raise AttributeError.
Proof.
  unfold list_unused_secrets_in_namespace. rewrite get_all_pod_specs_spec.
  destruct (decide (Forall _ (scanned_controllers api namespace))); [|done].
  cbn [mbind result_bind].
  rewrite (all_used_secrets_ext _ (scanned_pod_specs api namespace)).
  - unfold all_used_secrets. rewrite update_all_used_secrets_spec.
    destruct (decide (Forall _ (scanned_pod_specs api namespace))); [|done].
    cbn [mbind result_bind]. f_equal. set_solver.
  - intros p. unfold scanned_pod_specs, scanned_controllers.
    rewrite !omap_app, !elem_of_app. tauto.
Qed.

(** X1. The declared names are exactly the names of the listed secrets,
    however often and in whatever order they are listed; there are no more
    names than listed secrets, and an absent listing gives what an empty one
    gives. *)
Theorem declared_names_of_listing (api : KubeApi) (namespace : string) :
  (∀ name,
     name ∈ _list_all_secrets api namespace
     ↔ ∃ item, item ∈ default [] (list_namespaced_secret api namespace)
               ∧ metadata_name item = name)
  ∧ size (_list_all_secrets api namespace)
    ≤ length (default [] (list_namespaced_secret api namespace))
  ∧ (default [] (list_namespaced_secret api namespace) = [] →
     _list_all_secrets api namespace = ∅).
Proof.
  split; [apply elem_of_list_all_secrets|]. split.
  - unfold _list_all_secrets.
    destruct (list_namespaced_secret api namespace) as [[|item items]|];
      cbn [truthy option_truthy list_truthy negb default];
      [by rewrite size_empty| |by rewrite size_empty].
    generalize (item :: items). intros l. unfold id.
    induction l as [|x l IH].
    { rewrite fmap_nil, list_to_set_nil, size_empty. done. }
    rewrite fmap_cons, list_to_set_cons, size_union_alt, size_singleton.
    cbn [length]. apply le_n_S. etrans; [|apply IH].
    apply subseteq_size. set_solver.
  - unfold _list_all_secrets.
    by destruct (list_namespaced_secret api namespace) as [[|item items]|].
Qed.

Lemma declared_names_of_listing_witness :
  _list_all_secrets
    (deployment_cluster [] []) "prod" = ∅.
Proof.
  apply (declared_names_of_listing (deployment_cluster [] []) "prod").
  reflexivity.
Defined.

(** X2. Deployments are listed twice (line 85), and the second scan changes
    nothing: the program returns what collection, aggregation and
    resolution give on the Deployments, DaemonSets, ReplicaSets and Pods,
    each taken once. *)
Theorem double_deployment_scan_harmless (api : KubeApi) (namespace : string) :
  list_unused_secrets_in_namespace api namespace
  = pod_specs ← collect_pod_specs (scanned_controllers api namespace)
                  (list_namespaced_pod api namespace);
    used ← all_used_secrets pod_specs;
    resolve_listed_secrets (_list_all_secrets api namespace) used.
Proof.
  rewrite scan_spec, pod_specs_collected.
  destruct (decide (Forall _ (scanned_controllers api namespace))); [|done].
  cbn [mbind result_bind]. fold (scanned_pod_specs api namespace).
  unfold all_used_secrets. rewrite update_all_used_secrets_spec.
  destruct (decide (Forall _ (scanned_pod_specs api namespace))); [|done].
  cbn [mbind result_bind]. f_equal. set_solver.
Qed.


(** X4. When every controller scanned has a [spec], every pod spec scanned
    has a container list and every listed secret has a name, the program
    returns a set, and a name is in it exactly when it is a declared name,
    no scanned pod spec references it, and it starts with none of the
    reserved prefixes. *)
Theorem unused_secrets_of_namespace (api : KubeApi) (namespace : string) :
  Forall (λ c, is_Some (controller_spec c)) (scanned_controllers api namespace) →
  Forall (λ p, is_Some (containers p)) (scanned_pod_specs api namespace) →
  Forall (λ item, is_Some (metadata_name item))
         (default [] (list_namespaced_secret api namespace)) →
  ∃ out,
    list_unused_secrets_in_namespace api namespace = Ok out
    ∧ ∀ secret,
        secret ∈ out
        ↔ Some secret ∈ _list_all_secrets api namespace
          ∧ (∀ p, p ∈ scanned_pod_specs api namespace →
                  Some secret ∉ referenced_secrets p)
          ∧ Forall (λ prefix, startswith secret prefix = false) reserved_prefixes.
Proof.
  intros Hspecs Hcontainers Hnames. eexists. split.
  - rewrite scan_spec, !decide_True, resolve_listed_secrets_spec by done.
    rewrite decide_False; [reflexivity|].
    intros [(item & Hitem & Hnone)%elem_of_list_all_secrets _]%elem_of_difference.
    rewrite Forall_forall in Hnames. destruct (Hnames item Hitem). congruence.
  - intros secret. rewrite elem_of_resolve_unused_secrets.
    unfold string_names. rewrite elem_of_set_omap, elem_of_union_list.
    setoid_rewrite list_elem_of_fmap. split.
    + intros ((x & Hx & [= ->]) & Hused & Hres). split; [done|]. split; [|done].
      intros p Hp Hin. apply Hused. eauto.
    + intros (Hdecl & Hused & Hres). split; [by exists (Some secret)|].
      split; [|done]. intros (X & (p & -> & Hp) & Hin). by apply (Hused p).
Qed.

Lemma unused_secrets_of_namespace_witness :
  ∃ out,
    list_unused_secrets_in_namespace
      (deployment_cluster ["api-key"; "unused-one"] [controller_of web_pod]) "prod"
    = Ok out
    ∧ ∀ secret,
        secret ∈ out
        ↔ Some secret ∈ _list_all_secrets
                     (deployment_cluster ["api-key"; "unused-one"]
                        [controller_of web_pod]) "prod"
          ∧ (∀ p, p ∈ scanned_pod_specs
                        (deployment_cluster ["api-key"; "unused-one"]
                           [controller_of web_pod]) "prod" →
                  Some secret ∉ referenced_secrets p)
          ∧ Forall (λ prefix, startswith secret prefix = false) reserved_prefixes.
Proof.
  apply (unused_secrets_of_namespace
           (deployment_cluster ["api-key"; "unused-one"] [controller_of web_pod])
           "prod");
    repeat constructor; by eexists.
Defined.

(** X5. The result for a namespace depends neither on the order in which
    the cluster lists its secrets, Deployments, DaemonSets, ReplicaSets and
    Pods, nor on its StatefulSets. *)
Theorem listing_order_irrelevant (api api' : KubeApi) (namespace : string) :
  default [] (list_namespaced_secret api namespace)
    ≡ₚ default [] (list_namespaced_secret api' namespace) →
  list_namespaced_deployment api namespace ≡ₚ list_namespaced_deployment api' namespace →
  list_namespaced_daemon_set api namespace ≡ₚ list_namespaced_daemon_set api' namespace →
  list_namespaced_replica_set api namespace ≡ₚ list_namespaced_replica_set api' namespace →
  list_namespaced_pod api namespace ≡ₚ list_namespaced_pod api' namespace →
  list_unused_secrets_in_namespace api namespace
  = list_unused_secrets_in_namespace api' namespace.
Proof.
  intros Hsecrets Hdeployments Hdaemons Hreplicas Hpods.
  assert (scanned_controllers api namespace ≡ₚ scanned_controllers api' namespace)
    as Hcontrollers.
  { unfold scanned_controllers. by rewrite Hdeployments, Hdaemons, Hreplicas. }
  assert (scanned_pod_specs api namespace ≡ₚ scanned_pod_specs api' namespace)
    as Hspecs.
  { unfold scanned_pod_specs. by rewrite Hcontrollers, Hpods. }
  assert (_list_all_secrets api namespace = _list_all_secrets api' namespace) as Hnames.
  { apply set_eq. intros name. rewrite !elem_of_list_all_secrets.
    by setoid_rewrite Hsecrets. }
  assert (⋃ (referenced_secrets <$> scanned_pod_specs api namespace)
          = ⋃ (referenced_secrets <$> scanned_pod_specs api' namespace)) as Hused.
  { apply leibniz_equiv. by rewrite Hspecs. }
  rewrite !scan_spec, Hnames, Hused.
  destruct (decide (Forall _ (scanned_controllers api namespace))) as [Hc|Hc],
           (decide (Forall _ (scanned_controllers api' namespace))) as [Hc'|Hc'];
    try done; try (rewrite Hcontrollers in Hc; done).
  destruct (decide (Forall _ (scanned_pod_specs api namespace))) as [Hp|Hp],
           (decide (Forall _ (scanned_pod_specs api' namespace))) as [Hp'|Hp'];
    try done; rewrite Hspecs in Hp; done.
Qed.

Lemma listing_order_irrelevant_witness :
  list_unused_secrets_in_namespace
    (deployment_cluster ["api-key"; "unused-one"]
       [controller_of web_pod; controller_of worker_pod]) "prod"
  = list_unused_secrets_in_namespace
      (deployment_cluster ["unused-one"; "api-key"]
         [controller_of worker_pod; controller_of web_pod]) "prod".
Proof.
  apply listing_order_irrelevant; simpl;
    [apply perm_swap | apply perm_swap | done | done | done].
Defined.


(** X7. The extractor tells neither containers from init-containers nor
    one order of volumes or containers from another: two pod specs whose
    volumes, and whose containers and init-containers taken together, are
    the same up to order give the same used set. *)
Theorem extractor_ignores_order_and_container_kind
    (vols vols' : list V1Volume) (cs cs' : list V1Container)
    (inits inits' : option (list V1Container)) :
  vols ≡ₚ vols' →
  cs ++ default [] inits ≡ₚ cs' ++ default [] inits' →
  _get_used_secrets_in_pod_spec
    {| volumes := Some vols; containers := Some cs; init_containers := inits |}
  = _get_used_secrets_in_pod_spec
      {| volumes := Some vols'; containers := Some cs'; init_containers := inits' |}.
Proof.
  intros Hvols Hcs. rewrite !pod_scan. simpl. f_equal.
  unfold referenced_secrets. simpl. apply set_eq. intros n.
  rewrite !elem_of_union, !elem_of_list_to_set, !elem_of_union_list.
  rewrite !list_elem_of_omap. setoid_rewrite list_elem_of_fmap.
  setoid_rewrite Hvols. setoid_rewrite Hcs. done.
Qed.

Lemma extractor_ignores_order_and_container_kind_witness :
  _get_used_secrets_in_pod_spec
    {| volumes := Some [secret_volume (Some "api-key")];
       containers := Some [nameless_ref_container];
       init_containers := Some [bare_container] |}
  = _get_used_secrets_in_pod_spec
      {| volumes := Some [secret_volume (Some "api-key")];
         containers := Some [bare_container; nameless_ref_container];
         init_containers := None |}.
Proof.
  apply extractor_ignores_order_and_container_kind; simpl;
    [done | apply perm_swap].
Defined.

(** X10. A namespace that lists no secret is scanned all the same: the
    program returns the empty set when every controller scanned has a
    [spec] and every pod spec scanned has a container list, and fails
    otherwise. *)
Theorem no_secret_still_scanned (api : KubeApi) (namespace : string) :
  default [] (list_namespaced_secret api namespace) = [] →
  list_unused_secrets_in_namespace api namespace
  = if decide (Forall (λ c, is_Some (controller_spec c))
                 (scanned_controllers api namespace)
               ∧ Forall (λ p, is_Some (containers p))
                   (scanned_pod_specs api namespace))
    then Ok ∅
    else Raise AttributeError.
Proof.
  intros Hnone. rewrite scan_spec.
  assert (_list_all_secrets api namespace = ∅) as ->.
  { apply set_eq. intros name. rewrite elem_of_list_all_secrets, Hnone.
    split; [|set_solver]. by intros (item & ?%elem_of_nil & _). }
  destruct (decide (Forall _ (scanned_controllers api namespace))) as [Hc|Hc].
  - destruct (decide (Forall _ (scanned_pod_specs api namespace))) as [Hp|Hp].
    + rewrite decide_True by done.
      unfold resolve_listed_secrets.
      replace (∅ ∖ ⋃ (referenced_secrets <$> scanned_pod_specs api namespace))
        with (∅ : NameSet) by set_solver.
      by rewrite elements_empty.
    + rewrite decide_False by tauto. done.
  - rewrite decide_False by tauto. done.
Qed.

Lemma no_secret_still_scanned_witness :
  list_unused_secrets_in_namespace sample_api "empty" = Ok ∅.
Proof.
  rewrite (no_secret_still_scanned sample_api "empty" eq_refl).
  apply decide_True. split; repeat constructor; by eexists.
Defined.

(** ** The report of [main.py] *)

Lemma foldl_print (line : string → string) (secrets stdout : list string) :
  foldl (λ stdout secret, stdout ++ [line secret]) stdout secrets
  = stdout ++ (line <$> secrets).
Proof.
  revert stdout. induction secrets as [|s secrets IH]; intros stdout; simpl.
  - by rewrite app_nil_r.
  - by rewrite IH, <- app_assoc.
Qed.

(** A namespace that is scanned without failure adds its header and its
    lines to what was printed, and the loop goes on. *)
Lemma report_namespaces_step (colored : string → string → string)
    (iteration : string → gset string → list string) (api : KubeApi)
    (namespace : string) (namespaces stdout : list string) (secrets : gset string) :
  list_unused_secrets_in_namespace api namespace = Ok secrets →
  report_namespaces colored iteration api (namespace :: namespaces) stdout
  = report_namespaces colored iteration api namespaces
      (stdout ++ namespace_header colored namespace
                 :: printed_lines colored iteration namespace secrets).
Proof.
  intros Hok. cbn [report_namespaces]. rewrite Hok.
  unfold printed_lines, namespace_header, truthy, gset_truthy.
  rewrite negb_involutive.
  destruct (decide (secrets = ∅)) as [Hempty|Hsome].
  - rewrite bool_decide_eq_true_2 by done. by rewrite <- app_assoc.
  - rewrite bool_decide_eq_false_2 by done.
    rewrite foldl_print. by rewrite <- app_assoc.
Qed.

Lemma printed_lines_report (colored : string → string → string)
    (iteration : string → gset string → list string)
    (namespace : string) (secrets : gset string) :
  visits_each_member iteration →
  reports colored namespace secrets
    (namespace_header colored namespace
     :: printed_lines colored iteration namespace secrets).
Proof.
  intros Hvisits. eexists. split; [reflexivity|].
  unfold printed_lines, namespace_lines.
  destruct (decide (secrets = ∅)); [done|]. by rewrite (Hvisits namespace secrets).
Qed.

Lemma report_namespaces_ok (colored : string → string → string)
    (iteration : string → gset string → list string) (api : KubeApi)
    (namespaces : list string) (outs : list (gset string)) (stdout : list string) :
  visits_each_member iteration →
  Forall2 (λ namespace out, list_unused_secrets_in_namespace api namespace = Ok out)
          namespaces outs →
  ∃ blocks,
    report_namespaces colored iteration api namespaces stdout
    = (stdout ++ concat blocks, Ok tt)
    ∧ Forall3 (reports colored) namespaces outs blocks.
Proof.
  intros Hvisits Hall. revert stdout.
  induction Hall as [|namespace out namespaces outs Hok _ IH]; intros stdout.
  - exists []. split; [|constructor]. simpl. by rewrite app_nil_r.
  - rewrite (report_namespaces_step _ _ _ _ _ _ _ Hok).
    destruct (IH (stdout ++ namespace_header colored namespace
                            :: printed_lines colored iteration namespace out))
      as (blocks & -> & Hblocks).
    exists ((namespace_header colored namespace
             :: printed_lines colored iteration namespace out) :: blocks).
    split; [by rewrite <- app_assoc|].
    constructor; [by apply printed_lines_report|done].
Qed.

Lemma report_namespaces_raise (colored : string → string → string)
    (iteration : string → gset string → list string) (api : KubeApi)
    (before after : list string) (namespace : string) (outs : list (gset string))
    (e : exn) (stdout : list string) :
  visits_each_member iteration →
  Forall2 (λ namespace out, list_unused_secrets_in_namespace api namespace = Ok out)
          before outs →
  list_unused_secrets_in_namespace api namespace = Raise e →
  ∃ blocks,
    report_namespaces colored iteration api (before ++ namespace :: after) stdout
    = (stdout ++ concat blocks, Raise e)
    ∧ Forall3 (reports colored) before outs blocks.
Proof.
  intros Hvisits Hall Hraise. revert stdout.
  induction Hall as [|ns out before outs Hok _ IH]; intros stdout.
  - exists []. split; [|constructor]. simpl. rewrite Hraise. by rewrite app_nil_r.
  - rewrite <- app_comm_cons, (report_namespaces_step _ _ _ _ _ _ _ Hok).
    destruct (IH (stdout ++ namespace_header colored ns
                            :: printed_lines colored iteration ns out))
      as (blocks & -> & Hblocks).
    exists ((namespace_header colored ns
             :: printed_lines colored iteration ns out) :: blocks).
    split; [by rewrite <- app_assoc|].
    constructor; [by apply printed_lines_report|done].
Qed.

Lemma length_report (colored : string → string → string)
    (namespace : string) (secrets : gset string) (block : list string) :
  reports colored namespace secrets block →
  length block = 1 + max 1 (size secrets).
Proof.
  intros (lines & -> & Hlines). cbn [length]. rewrite Hlines.
  unfold namespace_lines. destruct (decide (secrets = ∅)) as [->|Hsome].
  - reflexivity.
  - rewrite length_fmap.
    change (length (elements secrets)) with (size secrets).
    assert (size secrets ≠ 0) by (by rewrite size_non_empty_iff, leibniz_equiv_iff).
    lia.
Qed.

(** X8. When every namespace is scanned without failure, [main] ends
    normally, whatever the order in which the interpreter visits the members
    of a set. What it has printed is, namespace after namespace in listing
    order, a header followed by either the notice, when the namespace has no
    unused secret, or one line per unused secret in some order; that is one
    line per namespace plus one line per unused secret or notice. *)
Theorem main_prints_every_namespace (colored : string → string → string)
    (iteration : string → gset string → list string)
    (cluster : ClusterApi) (outs : list (gset string)) :
  visits_each_member iteration →
  Forall2 (λ namespace out,
             list_unused_secrets_in_namespace (namespaced cluster) namespace = Ok out)
          (list_all_namespaces cluster) outs →
  ∃ blocks,
    main colored iteration cluster = (concat blocks, Ok tt)
    ∧ Forall3 (reports colored) (list_all_namespaces cluster) outs blocks
    ∧ length (concat blocks) = sum_list ((λ out, 1 + max 1 (size out)) <$> outs).
Proof.
  intros Hvisits Hall. unfold main.
  destruct (report_namespaces_ok colored iteration _ _ _ [] Hvisits Hall)
    as (blocks & -> & Hblocks).
  exists blocks. split; [done|]. split; [done|]. clear Hall.
  induction Hblocks as [|ns out block namespaces outs blocks Hblock _ IH];
    [reflexivity|].
  cbn [concat]. rewrite fmap_cons, length_app, (length_report _ _ _ _ Hblock), IH.
  reflexivity.
Qed.

Lemma main_prints_every_namespace_witness :
  ∃ blocks,
    main tagged (λ _ secrets, reverse (elements secrets))
         (sample_cluster ["prod"; "empty"])
    = (concat blocks, Ok tt)
    ∧ Forall3 (reports tagged) ["prod"; "empty"] [ {[ "unused-one"; "stale-cert" ]}; ∅ ]
              blocks
    ∧ length (concat blocks) = 5.
Proof.
  refine (main_prints_every_namespace tagged (λ _ secrets, reverse (elements secrets))
            (sample_cluster ["prod"; "empty"])
            [ {[ "unused-one"; "stale-cert" ]}; ∅ ] _ _).
  - intros namespace secrets. apply reverse_Permutation.
  - repeat constructor; vm_compute; reflexivity.
Defined.

(** X9. [main] stops at the first namespace whose scan fails, whatever the
    order in which the interpreter visits the members of a set: it ends with
    that exception, having printed the complete reports of the namespaces
    before it and nothing for the failing namespace or any later one. *)
Theorem main_stops_at_first_failure (colored : string → string → string)
    (iteration : string → gset string → list string)
    (cluster : ClusterApi) (before after : list string) (namespace : string)
    (outs : list (gset string)) (e : exn) :
  visits_each_member iteration →
  list_all_namespaces cluster = before ++ namespace :: after →
  Forall2 (λ namespace out,
             list_unused_secrets_in_namespace (namespaced cluster) namespace = Ok out)
          before outs →
  list_unused_secrets_in_namespace (namespaced cluster) namespace = Raise e →
  ∃ blocks,
    main colored iteration cluster = (concat blocks, Raise e)
    ∧ Forall3 (reports colored) before outs blocks.
Proof.
  intros Hvisits Hnamespaces Hall Hraise. unfold main. rewrite Hnamespaces.
  destruct (report_namespaces_raise colored iteration _ _ after _ _ _ []
              Hvisits Hall Hraise) as (blocks & -> & Hblocks).
  by exists blocks.
Qed.

Lemma main_stops_at_first_failure_witness :
  ∃ blocks,
    main tagged (λ _ secrets, reverse (elements secrets))
         (sample_cluster ["prod"; "broken"; "empty"])
    = (concat blocks, Raise AttributeError)
    ∧ Forall3 (reports tagged) ["prod"] [ {[ "unused-one"; "stale-cert" ]} ] blocks.
Proof.
  refine (main_stops_at_first_failure tagged (λ _ secrets, reverse (elements secrets))
            (sample_cluster ["prod"; "broken"; "empty"])
            ["prod"] ["empty"] "broken" [ {[ "unused-one"; "stale-cert" ]} ]
            AttributeError _ _ _ _).
  - intros namespace secrets. apply reverse_Permutation.
  - reflexivity.
  - repeat constructor; vm_compute; reflexivity.
  - reflexivity.
Defined.
